(** * Balloon tracker: snapshot ingestion, positional parsing and geocoding

    A shallow embedding of the ingestion pipeline of [main.py]:
    [fetch_snapshot], [parse_snapshot], [parse_flight_record] and
    [collect_flight_history].  Python values decoded from JSON are an
    inductive type, exceptions are an explicit result type, and the two
    effects of the pipeline (outbound HTTP requests and lines printed on
    standard output) are recorded in a chronological trace that is threaded
    through every call. *)

From Stdlib Require Import List String Ascii ZArith QArith Bool Lia.
From Stdlib Require Import DecimalString.
From Stdlib Require DecimalPos DecimalZ.
Import ListNotations.
Set Warnings "-register-all,-notation-for-abbreviation".
Local Open Scope string_scope.
Local Open Scope list_scope.
Local Open Scope Z_scope.

(** ** Python values *)

(** What [resp.json()] can hand back: [None], booleans, integers, floats
    (finite ones, as rationals: the pipeline never computes with them, it only
    passes them on), strings, lists and dicts.  A dict decoded from JSON has
    string keys and iterates in insertion order, so it is kept as the list of
    its [items()]. *)
Inductive value : Type :=
| VNone
| VBool (b : bool)
| VInt (z : Z)
| VFloat (q : Q)
| VStr (s : string)
| VList (items : list value)
| VDict (entries : list (string * value)).

(** The name [type(raw)] prints in the warning of [parse_snapshot]. *)
Inductive pytype : Type :=
| TNoneType | TBool | TInt | TFloat | TStr | TList | TDict.

Definition type_of (v : value) : pytype :=
  match v with
  | VNone => TNoneType
  | VBool _ => TBool
  | VInt _ => TInt
  | VFloat _ => TFloat
  | VStr _ => TStr
  | VList _ => TList
  | VDict _ => TDict
  end.

(** ** Exceptions *)

Inductive exn : Type :=
| IndexError
| KeyError
| TypeError
| ValueError
| Timeout
| ConnectionError
| HTTPError
| JSONDecodeError.

Inductive result (A : Type) : Type :=
| Ok (a : A)
| Raise (e : exn).
Arguments Ok {A} a.
Arguments Raise {A} e.

Definition rbind {A B : Type} (r : result A) (k : A -> result B) : result B :=
  match r with
  | Ok a => k a
  | Raise e => Raise e
  end.

(** ** Subscripting *)

(** [obj[i]] for a literal index [i >= 0].  A list or a string answers with
    its [i]-th element or [IndexError]; a dict looks the integer up as a key,
    and a dict decoded from JSON has only string keys, hence [KeyError]; the
    remaining values are not subscriptable. *)
Definition getitem (obj : value) (i : nat) : result value :=
  match obj with
  | VList items =>
      match nth_error items i with
      | Some v => Ok v
      | None => Raise IndexError
      end
  | VStr s =>
      match String.get i s with
      | Some c => Ok (VStr (String c EmptyString))
      | None => Raise IndexError
      end
  | VDict _ => Raise KeyError
  | VNone | VBool _ | VInt _ | VFloat _ => Raise TypeError
  end.

(** ** The geometry engine *)

(** A point of the plane, [x] first. *)
Record point : Type := mkPoint { px : Q; py : Q }.

(** The float a number converts to when [float()] converts it exactly: a
    float is itself, and an integer of magnitude at most 2^53 is the same
    number.  A larger integer is rounded to a neighbouring float, or, from
    2^1024 on, has no float at all. *)
Definition as_number (v : value) : option Q :=
  match v with
  | VInt z => if Z.abs z <=? 2 ^ 53 then Some (inject_Z z) else None
  | VFloat q => Some q
  | _ => None
  end.

(** An integer too large for any float: [float()] raises [OverflowError]
    on it. *)
Definition overflows (v : value) : bool :=
  match v with
  | VInt z => 2 ^ 1024 <=? Z.abs z
  | _ => false
  end.

(** The part of shapely and geopandas the pipeline relies on.  [Point x y]
    is shapely's constructor: it converts each coordinate to a float, so two
    numbers that convert exactly give the point with these coordinates;
    [None], which has no float conversion, makes the constructor raise, and
    so does an integer beyond the range of floats.  What it does with other
    values (strings, nested lists, integers that are rounded) differs between
    shapely releases or depends on the rounding, and is left open.
    [contains g p] is the containment test of a boundary geometry. *)
Class GeoEngine : Type := {
  geometry : Type;
  Point : value -> value -> result point;
  contains : geometry -> point -> bool;
  Point_numbers : forall a b x y,
    as_number a = Some x -> as_number b = Some y ->
    Point a b = Ok (mkPoint x y);
  Point_None : forall a b,
    a = VNone \/ b = VNone -> exists e, Point a b = Raise e;
  Point_overflow : forall a b,
    overflows a = true \/ overflows b = true -> exists e, Point a b = Raise e
}.

(** One row of a boundary collection: a geometry and its name attribute
    (column ["NAME"] of the country-level collection, column ["name"] of the
    state-level one). *)
Record feature `{GeoEngine} : Type := mkFeature {
  f_geometry : geometry;
  f_name : string
}.
Arguments mkFeature {_} _ _.

(** ** Records *)

(** The dict returned by [parse_flight_record]. *)
Record flight_record : Type := mkRecord {
  lat : value;
  lon : value;
  alt : value;
  country : option string;
  state : option string
}.

(** ** Effects *)

Inductive message : Type :=
| MsgError (url : string) (e : exn)
| MsgWarn (t : pytype)
| MsgInfo (h : Z) (n : nat).

Inductive event : Type :=
| Get (url : string)
| Print (m : message).

Definition trace : Type := list event.

Inductive http_outcome : Type :=
| Transport (e : exn)
| Response (status_ok : bool) (body : option value).

(** A computation reads the trace so far and returns its result together
    with the extended trace; what was requested or printed before an
    exception stays in the trace. *)
Definition M (A : Type) : Type := trace -> result A * trace.

Definition ret {A : Type} (a : A) : M A := fun tr => (Ok a, tr).

Definition bind {A B : Type} (m : M A) (k : A -> M B) : M B :=
  fun tr =>
    match m tr with
    | (Ok a, tr') => k a tr'
    | (Raise e, tr') => (Raise e, tr')
    end.

Definition lift {A : Type} (r : result A) : M A := fun tr => (r, tr).

Definition emit (ev : event) : M unit := fun tr => (Ok tt, tr ++ [ev]).

Definition print (m : message) : M unit := emit (Print m).

(** [try: body  except Exception as e: handler e] *)
Definition try_except {A : Type} (body : M A) (handler : exn -> M A) : M A :=
  fun tr =>
    match body tr with
    | (Ok a, tr') => (Ok a, tr')
    | (Raise e, tr') => handler e tr'
    end.

Declare Scope py_scope.
Delimit Scope py_scope with py.
Notation "x <- m ;; k" := (bind m (fun x => k))
  (at level 100, m at next level, right associativity) : py_scope.
Notation "m ;;; k" := (bind m (fun _ => k))
  (at level 100, right associativity) : py_scope.
Local Open Scope py_scope.

(** ** URL of a snapshot *)

(** ["{:02d}".format(h)]: the decimal digits of [h] (with a leading minus
    sign for a negative [h]), padded with a zero on the left when that is a
    single character. *)
Definition format_02d (h : Z) : string :=
  let s := NilZero.string_of_int (Z.to_int h) in
  if (String.length s <? 2)%nat then ("0" ++ s)%string else s.

Definition BASE_URL_format (h : Z) : string :=
  ("https://a.windbornesystems.com/treasure/" ++ format_02d h ++ ".json")%string.

(** [range(n)]: empty for [n <= 0]. *)
Definition range (n : Z) : list Z := map Z.of_nat (seq 0 (Z.to_nat n)).

Section Pipeline.

Context `{GeoEngine}.

(** The module-level globals [countries] and [states], loaded once. *)
Variable countries : list feature.
Variable states : list feature.

(** The network: what [requests.get(url, timeout=10)] meets at [url]. *)
Variable network : string -> http_outcome.

(** [frame[frame.contains(point)]]: the rows whose geometry contains the
    point, in the frame's order. *)
Definition select (frame : list feature) (p : point) : list feature :=
  filter (fun f => contains (f_geometry f) p) frame.

(** [rows[col].values[0] if not rows.empty else None] *)
Definition first_name (rows : list feature) : option string :=
  match rows with
  | [] => None
  | f :: _ => Some (f_name f)
  end.

Definition is_None (v : value) : bool :=
  match v with
  | VNone => true
  | _ => false
  end.

(** [parse_flight_record(obj)]; the outer [result] is an exception that
    leaves the function, the inner [option] is the returned value ([None]
    or a record). *)
Definition parse_flight_record (obj : value) : result (option flight_record) :=
  rbind (getitem obj 0) (fun lat =>
  rbind (getitem obj 1) (fun lon =>
  rbind (getitem obj 2) (fun alt =>
  rbind (Point lon lat) (fun point =>
  let country_point := select countries point in
  let state_point := select states point in
  let country := first_name country_point in
  let state := first_name state_point in
  if is_None lat || is_None lon then Ok None
  else Ok (Some (mkRecord lat lon alt country state)))))).

(** [for item in items: parsed = parse_flight_record(item);
     if parsed: results.append(parsed)].  A returned record is a dict with
    five keys, hence truthy; only [None] is skipped. *)
Fixpoint extend_parsed (items : list value) (results : list flight_record)
  : result (list flight_record) :=
  match items with
  | [] => Ok results
  | item :: rest =>
      rbind (parse_flight_record item) (fun parsed =>
      extend_parsed rest
        (match parsed with
         | Some r => results ++ [r]
         | None => results
         end))
  end.

(** [for key, value in raw.items(): if isinstance(value, list): ...] *)
Fixpoint scan_entries (entries : list (string * value))
    (results : list flight_record) : result (list flight_record) :=
  match entries with
  | [] => Ok results
  | (_, VList items) :: rest =>
      rbind (extend_parsed items results) (scan_entries rest)
  | _ :: rest => scan_entries rest results
  end.

Definition parse_snapshot (raw : value) : M (list flight_record) :=
  match raw with
  | VNone => ret []
  | VList items => lift (extend_parsed items [])
  | VDict entries => lift (scan_entries entries [])
  | _ => print (MsgWarn (type_of raw)) ;;; ret []
  end.

(** [requests.get(url, timeout=10)]: one outbound request; a transport
    failure raises. *)
Definition requests_get (url : string) : M (bool * option value) :=
  emit (Get url) ;;;
  match network url with
  | Transport e => lift (Raise e)
  | Response status_ok body => ret (status_ok, body)
  end.

Definition raise_for_status (resp : bool * option value) : M unit :=
  if fst resp then ret tt else lift (Raise HTTPError).

Definition json (resp : bool * option value) : M value :=
  match snd resp with
  | Some v => ret v
  | None => lift (Raise JSONDecodeError)
  end.

Definition fetch_snapshot (hour_offset : Z) : M value :=
  let url := BASE_URL_format hour_offset in
  try_except
    (resp <- requests_get url ;;
     raise_for_status resp ;;;
     json resp)
    (fun e => print (MsgError url e) ;;; ret VNone).

(** The body of [for h in range(hours)], over the offsets still to do. *)
Fixpoint collect_loop (offsets : list Z) (all_records : list flight_record)
  : M (list flight_record) :=
  match offsets with
  | [] => ret all_records
  | h :: rest =>
      raw <- fetch_snapshot h ;;
      entries <- parse_snapshot raw ;;
      print (MsgInfo h (List.length entries)) ;;;
      collect_loop rest (all_records ++ entries)
  end.

Definition collect_flight_history (hours : Z) : M (list flight_record) :=
  collect_loop (range hours) [].

End Pipeline.


(** ** Vocabulary of the statements *)

Section Vocabulary.

Context `{GeoEngine}.
Variable countries : list feature.
Variable states : list feature.
Variable network : string -> http_outcome.

(** A candidate the extraction accepts: a list with at least three slots
    whose first two hold numbers that convert to floats exactly. *)
Definition valid_candidate (item : value) : bool :=
  match item with
  | VList (lat :: lon :: _ :: _) =>
      match as_number lat, as_number lon with
      | Some _, Some _ => true
      | _, _ => false
      end
  | _ => false
  end.

(** A candidate without three positional slots: a list or a string shorter
    than three, or a value that has no positional access. *)
Definition lacks_slots (item : value) : bool :=
  match item with
  | VList slots => (List.length slots <? 3)%nat
  | VStr s => (String.length s <? 3)%nat
  | _ => true
  end.

(** The coordinate triple of record [r] is the first three slots of
    [item]. *)
Definition extracted (item : value) (r : flight_record) : Prop :=
  getitem item 0 = Ok (lat r) /\
  getitem item 1 = Ok (lon r) /\
  getitem item 2 = Ok (alt r).

(** [answer] names the first row of [frame], in its order, whose geometry
    contains [p]; it is [None] when no row does. *)
Definition first_containing (frame : list feature) (p : point)
    (answer : option string) : Prop :=
  match answer with
  | Some n =>
      exists before f after,
        frame = before ++ f :: after /\
        Forall (fun g => contains (f_geometry g) p = false) before /\
        contains (f_geometry f) p = true /\
        f_name f = n
  | None => Forall (fun g => contains (f_geometry g) p = false) frame
  end.

(** Record [r] carries the regions of its own position: they were looked
    up at the point built from its longitude and its latitude, in this
    order. *)
Definition geocoded (r : flight_record) : Prop :=
  exists p,
    Point (lon r) (lat r) = Ok p /\
    first_containing countries p (country r) /\
    first_containing states p (state r).

(** A record as it leaves the pipeline: geocoded, with a latitude and a
    longitude that are not [None]. *)
Definition enriched (r : flight_record) : Prop :=
  geocoded r /\ is_None (lat r) = false /\ is_None (lon r) = false.

(** The items of the list-valued entries of a dict, in iteration order. *)
Fixpoint sequence_values (entries : list (string * value)) : list (list value) :=
  match entries with
  | [] => []
  | (_, VList items) :: rest => items :: sequence_values rest
  | _ :: rest => sequence_values rest
  end.

(** The URLs requested in a trace, in order. *)
Fixpoint gets (tr : trace) : list string :=
  match tr with
  | [] => []
  | Get url :: rest => url :: gets rest
  | Print _ :: rest => gets rest
  end.

(** The progress diagnostics of a trace: offset and count, in order. *)
Fixpoint infos (tr : trace) : list (Z * nat) :=
  match tr with
  | [] => []
  | Print (MsgInfo h n) :: rest => (h, n) :: infos rest
  | _ :: rest => infos rest
  end.

(** What the fetch of offset [h] hands to the parser: the decoded body of a
    successful response, [None] after any failure. *)
Definition snapshot_of (h : Z) : value :=
  match network (BASE_URL_format h) with
  | Response true (Some v) => v
  | _ => VNone
  end.

(** The fetch of offset [h] failed. *)
Definition fetch_failed (h : Z) : bool :=
  match network (BASE_URL_format h) with
  | Response true (Some _) => false
  | _ => true
  end.

(** What the fetch of offset [h] adds to the trace. *)
Definition fetch_events (h : Z) : trace :=
  let url := BASE_URL_format h in
  Get url ::
  match network url with
  | Transport e => [Print (MsgError url e)]
  | Response false _ => [Print (MsgError url HTTPError)]
  | Response true None => [Print (MsgError url JSONDecodeError)]
  | Response true (Some _) => []
  end.

(** The records the parser returns for a payload, when it returns. *)
Definition parsed_as (raw : value) (rs : list flight_record) : Prop :=
  forall tr, fst (parse_snapshot countries states raw tr) = Ok rs.

End Vocabulary.

(** ** A small world to run the pipeline in *)

(** Axis-aligned boxes stand for boundary polygons; a box contains the points
    of its closed rectangle. *)
Module Boxes.

Record box : Type := mkBox { x_min : Q; x_max : Q; y_min : Q; y_max : Q }.

Definition box_contains (b : box) (p : point) : bool :=
  Qle_bool (x_min b) (px p) && Qle_bool (px p) (x_max b) &&
  Qle_bool (y_min b) (py p) && Qle_bool (py p) (y_max b).

(** Numbers are accepted, everything else is a [TypeError]. *)
Definition box_Point (a b : value) : result point :=
  match as_number a, as_number b with
  | Some x, Some y => Ok (mkPoint x y)
  | _, _ => Raise TypeError
  end.

Lemma box_Point_numbers : forall a b x y,
  as_number a = Some x -> as_number b = Some y ->
  box_Point a b = Ok (mkPoint x y).
Proof.
  intros a b x y Ha Hb. unfold box_Point. now rewrite Ha, Hb.
Qed.

Lemma box_Point_None : forall a b,
  a = VNone \/ b = VNone -> exists e, box_Point a b = Raise e.
Proof.
  intros a b [-> | ->]; exists TypeError; unfold box_Point; simpl.
  - reflexivity.
  - now destruct (as_number a).
Qed.

Lemma box_Point_overflow : forall a b,
  overflows a = true \/ overflows b = true -> exists e, box_Point a b = Raise e.
Proof.
  assert (Hnone : forall v, overflows v = true -> as_number v = None).
  { intros [| | z | | | |] Hv; cbn [overflows] in Hv; try discriminate Hv.
    unfold as_number. apply Z.leb_le in Hv.
    destruct (Z.leb_spec (Z.abs z) (2 ^ 53)) as [Hz | Hz]; [| reflexivity].
    assert (Hlt : 2 ^ 53 < 2 ^ 1024) by (apply Z.pow_lt_mono_r; lia). lia. }
  intros a b [Ha | Hb]; exists TypeError; unfold box_Point.
  - now rewrite (Hnone a Ha).
  - rewrite (Hnone b Hb). now destruct (as_number a).
Qed.

#[export] Instance engine : GeoEngine := {|
  geometry := box;
  Point := box_Point;
  contains := box_contains;
  Point_numbers := box_Point_numbers;
  Point_None := box_Point_None;
  Point_overflow := box_Point_overflow
|}.

(** Two overlapping countries, west of the 30th meridian and between the
    40th and 50th parallels, and one state inside the first. *)
Definition countries : list feature :=
  [ mkFeature (mkBox 0 30 40 50) "Testland";
    mkFeature (mkBox 20 60 40 50) "Eastland" ].

Definition states : list feature :=
  [ mkFeature (mkBox 0 15 40 45) "Southwest" ].

Definition valid_flight : value := VList [VFloat 45.0; VFloat 10.0; VInt 1500].

Definition short_flight : value := VList [VFloat 1.0].

Definition flights : value :=
  VList [ valid_flight; VList [VFloat 42.0; VFloat 25.0; VNone] ].

Definition mapping : list (string * value) :=
  [ ("meta", VStr "ignore"); ("flights", VList [valid_flight]);
    ("count", VInt 2);
    ("more", VList [VList [VFloat 1.0; VFloat 1.0; VInt 100]]) ].

Definition mapping_batches : list (list flight_record) :=
  [ [mkRecord (VFloat 45.0) (VFloat 10.0) (VInt 1500)
       (Some "Testland") (Some "Southwest")];
    [mkRecord (VFloat 1.0) (VFloat 1.0) (VInt 100) None None] ].

(** The batches of offsets 0, 1 and 2 on the network below. *)
Definition first_batches : list (list flight_record) :=
  let two :=
    [ mkRecord (VFloat 45.0) (VFloat 10.0) (VInt 1500)
        (Some "Testland") (Some "Southwest");
      mkRecord (VFloat 42.0) (VFloat 25.0) VNone (Some "Testland") None ] in
  [ two; two; [mkRecord (VFloat 1.0) (VFloat 1.0) (VInt 100) None None] ].

(** Offset 5 times out, offset 3 answers with status 404, the body of offset
    4 is not JSON, offset 2 answers with a mapping and every other offset
    with the two flights. *)
Definition network (url : string) : http_outcome :=
  if String.eqb url (BASE_URL_format 5) then Transport Timeout
  else if String.eqb url (BASE_URL_format 3) then Response false None
  else if String.eqb url (BASE_URL_format 4) then Response true None
  else if String.eqb url (BASE_URL_format 2) then
    Response true
      (Some (VDict [("flights", VList [VList [VFloat 1.0; VFloat 1.0; VInt 100]]);
                    ("meta", VStr "ignore")]))
  else Response true (Some flights).

(** Offset 0 answers with a candidate that has a single slot. *)
Definition short_network (url : string) : http_outcome :=
  if String.eqb url (BASE_URL_format 0)
  then Response true (Some (VList [short_flight]))
  else Response true (Some flights).

End Boxes.

(** ** Vocabulary of the further properties *)

(** Reading the offset field of a URL back: the integer a decimal string
    denotes, leading zeros allowed. *)
Definition offset_of_field (s : string) : option Z :=
  option_map Z.of_int (NilZero.int_of_string s).

(** The record candidates of a payload, in the order the parser visits
    them: the elements of a list, the elements of the list-valued entries of
    a dict, none for any other payload. *)
Definition candidates (raw : value) : list value :=
  match raw with
  | VList items => items
  | VDict entries => List.concat (sequence_values entries)
  | _ => []
  end.

(** A positional triple without a position: a list with at least three
    slots whose latitude or longitude is [None]. *)
Definition null_position (item : value) : bool :=
  match item with
  | VList (lat :: lon :: _ :: _) => is_None lat || is_None lon
  | _ => false
  end.

(** The sum of the counts printed in the progress diagnostics of a trace. *)
Definition printed_total (tr : trace) : nat :=
  list_sum (map snd (infos tr)).

(** A network on which every request fails to connect. *)
Definition dead_network (url : string) : http_outcome :=
  Transport ConnectionError.

(** A network whose snapshot of offset 1 holds a one-slot candidate; the
    other offsets answer with the two flights. *)
Definition late_network (url : string) : http_outcome :=
  if String.eqb url (BASE_URL_format 1)
  then Response true (Some (VList [Boxes.valid_flight; Boxes.short_flight]))
  else Response true (Some Boxes.flights).

(** * Properties *)

(** ** Offsets, URLs and traces *)

Lemma range_nonpositive : forall n, n <= 0 -> range n = [].
Proof.
  intros n Hn. unfold range.
  replace (Z.to_nat n) with 0%nat by lia. reflexivity.
Qed.

Lemma range_length : forall n, 0 <= n -> Z.of_nat (List.length (range n)) = n.
Proof.
  intros n Hn. unfold range. rewrite length_map, length_seq. lia.
Qed.

Lemma range_In : forall n h, In h (range n) <-> 0 <= h < n.
Proof.
  intros n h. unfold range. rewrite in_map_iff. split.
  - intros [k [<- Hk]]. apply in_seq in Hk. lia.
  - intros Hh. exists (Z.to_nat h). split; [lia |].
    apply in_seq. lia.
Qed.

Lemma range_head : forall n, 0 < n -> exists rest, range n = 0 :: rest.
Proof.
  intros n Hn. unfold range.
  destruct (Z.to_nat n) as [|k] eqn:Hk; [lia |].
  simpl. eauto.
Qed.

Lemma gets_app : forall t1 t2, gets (t1 ++ t2) = gets t1 ++ gets t2.
Proof.
  induction t1 as [|[url | m] t1 IH]; intros t2; simpl;
    rewrite ?IH; reflexivity.
Qed.

Lemma infos_app : forall t1 t2, infos (t1 ++ t2) = infos t1 ++ infos t2.
Proof.
  induction t1 as [|[url | [url e | t | h n]] t1 IH]; intros t2; simpl;
    rewrite ?IH; reflexivity.
Qed.

Section Facts.

Context `{GeoEngine}.
Variable countries : list feature.
Variable states : list feature.
Variable network : string -> http_outcome.

Notation parse_flight_record := (parse_flight_record countries states).
Notation extend_parsed := (extend_parsed countries states).
Notation scan_entries := (scan_entries countries states).
Notation parse_snapshot := (parse_snapshot countries states).
Notation fetch_snapshot := (fetch_snapshot network).
Notation collect_loop := (collect_loop countries states network).
Notation collect_flight_history := (collect_flight_history countries states network).
Notation geocoded := (geocoded countries states).
Notation enriched := (enriched countries states).
Notation parsed_as := (parsed_as countries states).
Notation snapshot_of := (snapshot_of network).
Notation fetch_failed := (fetch_failed network).
Notation fetch_events := (fetch_events network).

(** ** The region lookup *)

Lemma first_name_select : forall frame p,
  first_containing frame p (first_name (select frame p)).
Proof.
  induction frame as [|f frame IH]; intros p; simpl.
  - constructor.
  - destruct (contains (f_geometry f) p) eqn:Hf; simpl.
    + exists [], f, frame. repeat split; auto.
    + specialize (IH p).
      destruct (first_name (select frame p)) as [n|]; simpl in *.
      * destruct IH as (before & g & after & -> & Hbefore & Hg & Hn).
        exists (f :: before), g, after. repeat split; auto.
      * constructor; assumption.
Qed.

Lemma select_none : forall frame p,
  Forall (fun g => contains (f_geometry g) p = false) frame ->
  select frame p = [].
Proof.
  induction 1 as [|g frame Hg _ IH]; simpl; [reflexivity |].
  now rewrite Hg.
Qed.

(** The lookup has one answer only. *)
Lemma first_containing_unique : forall frame p answer,
  first_containing frame p answer -> answer = first_name (select frame p).
Proof.
  intros frame p [n|]; simpl.
  - intros (before & f & after & -> & Hbefore & Hf & <-).
    unfold select. rewrite filter_app. fold (select before p).
    rewrite (select_none before p Hbefore). simpl. now rewrite Hf.
  - intros Hnone. now rewrite (select_none frame p Hnone).
Qed.

(** ** Extraction of one candidate *)

Lemma parse_flight_record_numbers : forall la lo al more x y,
  as_number la = Some y -> as_number lo = Some x ->
  parse_flight_record (VList (la :: lo :: al :: more)) =
  Ok (Some (mkRecord la lo al
              (first_name (select countries (mkPoint x y)))
              (first_name (select states (mkPoint x y))))).
Proof.
  intros la lo al more x y Hla Hlo.
  unfold parse_flight_record. simpl.
  rewrite (Point_numbers lo la x y Hlo Hla). simpl.
  destruct la; try discriminate; destruct lo; try discriminate; reflexivity.
Qed.

Lemma parse_flight_record_short : forall slots,
  (List.length slots < 3)%nat ->
  parse_flight_record (VList slots) = Raise IndexError.
Proof.
  intros [|a [|b [|c more]]] Hlen; simpl in Hlen; try lia; reflexivity.
Qed.

Lemma parse_flight_record_None : forall la lo al more,
  la = VNone \/ lo = VNone ->
  exists e, parse_flight_record (VList (la :: lo :: al :: more)) = Raise e.
Proof.
  intros la lo al more Hnone.
  destruct (Point_None lo la) as [e He]; [tauto |].
  exists e. unfold parse_flight_record. simpl. now rewrite He.
Qed.

(** The guard on a missing position never fires: by the time it is reached
    the point has been built, and no point is built from [None]. *)
Lemma parse_flight_record_never_None : forall obj,
  parse_flight_record obj <> Ok None.
Proof.
  intros obj. unfold parse_flight_record.
  destruct (getitem obj 0) as [la|]; simpl; [| discriminate].
  destruct (getitem obj 1) as [lo|]; simpl; [| discriminate].
  destruct (getitem obj 2) as [al|]; simpl; [| discriminate].
  destruct (Point lo la) as [p|] eqn:Hp; simpl; [| discriminate].
  destruct (is_None la || is_None lo) eqn:Hnone; [| discriminate].
  exfalso. destruct (Point_None lo la) as [e He].
  - apply orb_true_iff in Hnone.
    destruct Hnone as [Hla | Hlo]; [right | left].
    + destruct la; try discriminate; reflexivity.
    + destruct lo; try discriminate; reflexivity.
  - congruence.
Qed.

Lemma parse_flight_record_geocoded : forall obj r,
  parse_flight_record obj = Ok (Some r) ->
  enriched r.
Proof.
  intros obj r. unfold enriched, parse_flight_record.
  destruct (getitem obj 0) as [la|]; simpl; [| discriminate].
  destruct (getitem obj 1) as [lo|]; simpl; [| discriminate].
  destruct (getitem obj 2) as [al|]; simpl; [| discriminate].
  destruct (Point lo la) as [p|] eqn:Hp; simpl; [| discriminate].
  destruct (is_None la) eqn:Hla; simpl; [discriminate |].
  destruct (is_None lo) eqn:Hlo; simpl; [discriminate |].
  intros [= <-]. simpl. repeat split; auto.
  exists p. simpl. repeat split; auto using first_name_select.
Qed.

Lemma valid_candidate_parse : forall item,
  valid_candidate item = true ->
  exists r, parse_flight_record item = Ok (Some r) /\ extracted item r.
Proof.
  intros [| | | | |[|la [|lo [|al more]]]|] Hv; simpl in Hv; try discriminate.
  destruct (as_number la) as [y|] eqn:Hla; [| discriminate].
  destruct (as_number lo) as [x|] eqn:Hlo; [| discriminate].
  eexists. split.
  - apply parse_flight_record_numbers; eassumption.
  - repeat split.
Qed.

(** ** The loops of the parser *)

Lemma extend_parsed_acc : forall items acc,
  extend_parsed items acc =
  rbind (extend_parsed items []) (fun rs => Ok (acc ++ rs)).
Proof.
  induction items as [|item rest IH]; intros acc; simpl.
  - now rewrite app_nil_r.
  - destruct (parse_flight_record item) as [[r|]|e]; simpl; auto.
    rewrite IH, (IH [r]).
    destruct (extend_parsed rest []) as [rs|e]; simpl; auto.
    now rewrite <- app_assoc.
Qed.

Lemma scan_entries_acc : forall entries acc,
  scan_entries entries acc =
  rbind (scan_entries entries []) (fun rs => Ok (acc ++ rs)).
Proof.
  induction entries as [|[key v] rest IH]; intros acc; simpl.
  - now rewrite app_nil_r.
  - destruct v; auto.
    rewrite extend_parsed_acc.
    destruct (extend_parsed items []) as [rs|e]; simpl; auto.
    rewrite IH, (IH rs).
    destruct (scan_entries rest []) as [rs'|e]; simpl; auto.
    now rewrite <- app_assoc.
Qed.

Lemma extend_parsed_geocoded : forall items acc rs,
  extend_parsed items acc = Ok rs ->
  Forall enriched acc ->
  Forall enriched rs.
Proof.
  induction items as [|item rest IH]; intros acc rs; simpl.
  - now intros [= <-].
  - destruct (parse_flight_record item) as [[r|]|e] eqn:Hitem; simpl;
      try discriminate; intros Hrest Hacc; apply (IH _ _ Hrest); auto.
    apply Forall_app. split; auto.
    constructor; auto. eapply parse_flight_record_geocoded; eassumption.
Qed.

Lemma scan_entries_geocoded : forall entries acc rs,
  scan_entries entries acc = Ok rs ->
  Forall enriched acc ->
  Forall enriched rs.
Proof.
  induction entries as [|[key v] rest IH]; intros acc rs; simpl.
  - now intros [= <-].
  - destruct v; eauto.
    destruct (extend_parsed items acc) as [rs'|e] eqn:Hitems; simpl;
      [| discriminate].
    intros Hrest Hacc. apply (IH _ _ Hrest).
    eapply extend_parsed_geocoded; eassumption.
Qed.

Lemma extend_parsed_valid : forall items,
  forallb valid_candidate items = true ->
  exists rs, extend_parsed items [] = Ok rs /\ Forall2 extracted items rs.
Proof.
  induction items as [|item rest IH]; simpl; intros Hall.
  - exists []. split; [reflexivity | constructor].
  - apply andb_true_iff in Hall. destruct Hall as [Hitem Hrest].
    destruct (valid_candidate_parse item Hitem) as (r & Hr & Hex).
    destruct (IH Hrest) as (rs & Hrs & Hall).
    exists (r :: rs). rewrite Hr. simpl.
    rewrite extend_parsed_acc, Hrs. simpl. split; [reflexivity |].
    constructor; assumption.
Qed.

(** The parser touches the trace only to append to it. *)
Lemma parse_snapshot_frame : forall raw tr,
  parse_snapshot raw tr =
  (fst (parse_snapshot raw []), tr ++ snd (parse_snapshot raw [])).
Proof.
  intros raw tr.
  destruct raw; simpl; unfold ret, lift, bind, print, emit; simpl;
    rewrite ?app_nil_r; reflexivity.
Qed.

Lemma parse_snapshot_no_request : forall raw,
  gets (snd (parse_snapshot raw [])) = [] /\
  infos (snd (parse_snapshot raw [])) = [].
Proof.
  intros raw. destruct raw; simpl; auto.
Qed.

Lemma parsed_as_frame : forall raw rs,
  fst (parse_snapshot raw []) = Ok rs -> parsed_as raw rs.
Proof.
  intros raw rs Hrs tr. now rewrite parse_snapshot_frame.
Qed.

(** ** One fetch *)

Lemma fetch_snapshot_run : forall h tr,
  fetch_snapshot h tr = (Ok (snapshot_of h), tr ++ fetch_events h).
Proof.
  intros h tr.
  unfold fetch_snapshot, snapshot_of, fetch_events,
    try_except, requests_get, raise_for_status, json, bind, emit, print,
    emit, lift, ret.
  destruct (network (BASE_URL_format h)) as [e | [|] [v|]]; simpl;
    rewrite <- ?app_assoc; reflexivity.
Qed.

Lemma fetch_events_gets : forall h, gets (fetch_events h) = [BASE_URL_format h].
Proof.
  intros h. unfold fetch_events.
  destruct (network (BASE_URL_format h)) as [e | [|] [v|]]; reflexivity.
Qed.

Lemma fetch_events_infos : forall h, infos (fetch_events h) = [].
Proof.
  intros h. unfold fetch_events.
  destruct (network (BASE_URL_format h)) as [e | [|] [v|]]; reflexivity.
Qed.

Lemma fetch_failed_snapshot : forall h,
  fetch_failed h = true -> snapshot_of h = VNone.
Proof.
  intros h. unfold fetch_failed, snapshot_of.
  destruct (network (BASE_URL_format h)) as [e | [|] [v|]];
    auto; discriminate.
Qed.

Lemma parse_snapshot_enriched : forall raw tr rs tr',
  parse_snapshot raw tr = (Ok rs, tr') -> Forall enriched rs.
Proof.
  intros raw tr rs tr'.
  destruct raw; simpl; unfold ret, lift, bind, print, emit; simpl;
    intros Hrun; inversion Hrun; subst; try constructor.
  - eapply extend_parsed_geocoded; [eassumption | constructor].
  - eapply scan_entries_geocoded; [eassumption | constructor].
Qed.

Lemma parsed_as_enriched : forall raw rs,
  parsed_as raw rs -> Forall enriched rs.
Proof.
  intros raw rs Hrs. specialize (Hrs []).
  destruct (parse_snapshot raw []) as [r tr'] eqn:Hrun. simpl in Hrs. subst r.
  eapply parse_snapshot_enriched; eassumption.
Qed.

Lemma parse_flight_record_lacking : forall item,
  lacks_slots item = true -> exists e, parse_flight_record item = Raise e.
Proof.
  intros [| b | z | q | s | slots | entries] Hlack; simpl in Hlack;
    try (eexists; reflexivity).
  - exists IndexError. apply Nat.ltb_lt in Hlack.
    destruct s as [|a [|b [|c s]]]; simpl in Hlack; try lia; reflexivity.
  - exists IndexError. apply Nat.ltb_lt in Hlack.
    now apply parse_flight_record_short.
Qed.

Lemma extend_parsed_raises : forall before item rest acc e,
  forallb valid_candidate before = true ->
  parse_flight_record item = Raise e ->
  extend_parsed (before ++ item :: rest) acc = Raise e.
Proof.
  induction before as [|b before IH]; intros item rest acc e Hvalid Hitem;
    simpl.
  - now rewrite Hitem.
  - simpl in Hvalid. apply andb_true_iff in Hvalid.
    destruct Hvalid as [Hb Hbefore].
    destruct (valid_candidate_parse b Hb) as (r & -> & _). simpl.
    now apply IH.
Qed.

(** ** The loop of the aggregator *)

Lemma collect_loop_returns : forall offsets batches,
  Forall2 (fun h rs => parsed_as (snapshot_of h) rs) offsets batches ->
  forall acc tr,
  exists tr',
    collect_loop offsets acc tr = (Ok (acc ++ List.concat batches), tr') /\
    gets tr' = gets tr ++ map BASE_URL_format offsets /\
    infos tr' = infos tr ++ combine offsets (map (@List.length _) batches).
Proof.
  induction 1 as [|h rs offsets batches Hh Hrest IH]; intros acc tr; simpl.
  - exists tr. now rewrite !app_nil_r.
  - unfold bind at 1. rewrite fetch_snapshot_run.
    unfold bind at 1. rewrite parse_snapshot_frame, (Hh []).
    unfold bind at 1, print, emit.
    destruct (IH (acc ++ rs)
                (((tr ++ fetch_events h) ++ snd (parse_snapshot (snapshot_of h) []))
                 ++ [Print (MsgInfo h (List.length rs))]))
      as (tr' & Hrun & Hgets & Hinfos).
    exists tr'.
    destruct (parse_snapshot_no_request (snapshot_of h)) as [Hg Hi].
    split; [| split].
    + rewrite (app_assoc acc rs). exact Hrun.
    + rewrite Hgets, !gets_app, fetch_events_gets, Hg. simpl.
      rewrite !app_nil_r, <- !app_assoc. reflexivity.
    + rewrite Hinfos, !infos_app, fetch_events_infos, Hi. simpl.
      rewrite !app_nil_r, <- !app_assoc. reflexivity.
Qed.

Lemma collect_loop_inv : forall offsets acc tr all tr',
  collect_loop offsets acc tr = (Ok all, tr') ->
  exists batches,
    Forall2 (fun h rs => parsed_as (snapshot_of h) rs) offsets batches /\
    all = acc ++ List.concat batches.
Proof.
  induction offsets as [|h offsets IH]; intros acc tr all tr'; simpl.
  - unfold ret. intros [= <- <-]. exists []. split; [constructor |].
    now rewrite app_nil_r.
  - unfold bind at 1. rewrite fetch_snapshot_run.
    unfold bind at 1. rewrite parse_snapshot_frame.
    destruct (fst (parse_snapshot (snapshot_of h) [])) as [rs|e] eqn:Hrs;
      [| discriminate].
    unfold bind at 1, print, emit. intros Hrun.
    apply IH in Hrun. destruct Hrun as (batches & Hall & ->).
    exists (rs :: batches). split.
    + constructor; auto using parsed_as_frame.
    + simpl. now rewrite app_assoc.
Qed.

Lemma collect_loop_raises : forall h offsets acc tr e,
  fst (parse_snapshot (snapshot_of h) []) = Raise e ->
  collect_loop (h :: offsets) acc tr =
  (Raise e, tr ++ fetch_events h ++ snd (parse_snapshot (snapshot_of h) [])).
Proof.
  intros h offsets acc tr e Hraise. simpl.
  unfold bind at 1. rewrite fetch_snapshot_run.
  unfold bind at 1. rewrite parse_snapshot_frame, Hraise.
  now rewrite <- app_assoc.
Qed.

Lemma batches_exist : forall offsets,
  (forall h, In h offsets -> exists rs, parsed_as (snapshot_of h) rs) ->
  exists batches,
    Forall2 (fun h rs => parsed_as (snapshot_of h) rs) offsets batches.
Proof.
  induction offsets as [|h offsets IH]; intros Hall.
  - exists []. constructor.
  - destruct (Hall h (or_introl eq_refl)) as [rs Hrs].
    destruct IH as [batches Hbatches].
    + intros k Hk. apply Hall. now right.
    + exists (rs :: batches). now constructor.
Qed.

(** ** The claims *)

(** C1, on the code as it is: extraction raises on a malformed candidate
    instead of skipping it.  When a candidate that does not expose three
    positional slots (a list or string shorter than three, a dict, a scalar)
    follows any number of valid candidates, the exception leaves
    [parse_snapshot], and the triples extracted before it are not
    returned. *)
Theorem parse_snapshot_malformed_candidate_raises :
  forall before item rest tr,
    forallb valid_candidate before = true ->
    lacks_slots item = true ->
    exists e,
      parse_snapshot (VList (before ++ item :: rest)) tr = (Raise e, tr).
Proof.
  intros before item rest tr Hvalid Hlack.
  destruct (parse_flight_record_lacking item Hlack) as [e He].
  exists e. simpl. unfold lift.
  now rewrite (extend_parsed_raises before item rest [] e Hvalid He).
Qed.

(** C2, on the code as it is: the payload
    [[[10.0, 20.0, 1500], [null, 5.0, 300]]] makes [parse_snapshot] raise.
    The point of the second candidate is built from its [None] latitude
    before the guard on missing positions is reached, so no triple is
    returned, not even the one of the first candidate. *)
Theorem parse_snapshot_null_latitude_raises :
  forall tr,
    exists e,
      parse_snapshot
        (VList [ VList [VFloat 10.0; VFloat 20.0; VInt 1500];
                 VList [VNone; VFloat 5.0; VInt 300] ]) tr = (Raise e, tr).
Proof.
  intros tr.
  destruct (parse_flight_record_None VNone (VFloat 5.0) (VInt 300) [])
    as [e He]; [now left |].
  exists e. simpl. unfold lift.
  rewrite (parse_flight_record_numbers (VFloat 10.0) (VFloat 20.0) (VInt 1500) []
             20.0%Q 10.0%Q eq_refl eq_refl).
  simpl. now rewrite He.
Qed.

(** C3, on the code as it is: a per-candidate error is not contained, it
    aborts the whole collection.  When the snapshot of offset 0 holds a
    candidate without three positional slots, [collect_flight_history]
    raises for every positive [hours], right after the first request and
    without returning any record. *)
Theorem collect_flight_history_candidate_error_propagates :
  forall item rest hours tr,
    lacks_slots item = true ->
    network (BASE_URL_format 0) = Response true (Some (VList (item :: rest))) ->
    0 < hours ->
    exists e,
      collect_flight_history hours tr =
      (Raise e, tr ++ [Get (BASE_URL_format 0)]).
Proof.
  intros item rest hours tr Hlack Hnet Hpos.
  destruct (parse_flight_record_lacking item Hlack) as [e He].
  destruct (range_head hours Hpos) as [offsets Hrange].
  assert (Hsnap : snapshot_of 0 = VList (item :: rest))
    by (unfold snapshot_of; now rewrite Hnet).
  exists e. unfold collect_flight_history. rewrite Hrange.
  rewrite (collect_loop_raises 0 offsets [] tr e).
  - unfold fetch_events. rewrite Hnet, Hsnap. simpl. reflexivity.
  - rewrite Hsnap. simpl. now rewrite He.
Qed.

(** Fetch failures, for their part, are contained: for every [hours] and
    every combination of fetch outcomes, provided the parser returns on the
    payloads that did arrive, [collect_flight_history] returns the
    concatenation, in offset order, of the per-offset batches, and every
    offset whose fetch failed (offset 5 timing out, for one) contributes the
    empty batch. *)
Lemma collect_flight_history_contains_fetch_failures : forall hours tr,
  (forall h, 0 <= h < hours -> fetch_failed h = false ->
             exists rs, parsed_as (snapshot_of h) rs) ->
  exists batches tr',
    collect_flight_history hours tr = (Ok (List.concat batches), tr') /\
    Forall2 (fun h rs => parsed_as (snapshot_of h) rs /\
                         (fetch_failed h = true -> rs = []))
            (range hours) batches.
Proof.
  intros hours tr Hok.
  destruct (batches_exist (range hours)) as [batches Hbatches].
  { intros h Hh. apply range_In in Hh.
    destruct (fetch_failed h) eqn:Hf.
    - exists []. intros tr0. now rewrite (fetch_failed_snapshot h Hf).
    - now apply Hok. }
  destruct (collect_loop_returns _ _ Hbatches [] tr) as (tr' & Hrun & _).
  exists batches, tr'. split; [exact Hrun |].
  clear Hrun Hok. induction Hbatches as [|h rs offsets batches Hh _ IH];
    constructor; auto.
  split; [exact Hh |]. intros Hf.
  specialize (Hh []). rewrite (fetch_failed_snapshot h Hf) in Hh.
  simpl in Hh. congruence.
Qed.

(** C4, amended: for every negative [hours] the call returns the empty
    sequence, issues no request, prints nothing and raises nothing. *)
Theorem collect_flight_history_negative_hours :
  forall hours tr,
    hours < 0 -> collect_flight_history hours tr = (Ok [], tr).
Proof.
  intros hours tr Hneg. unfold collect_flight_history.
  rewrite range_nonpositive by lia. reflexivity.
Qed.

(** C5: for every latitude and longitude that are floats, or integers that
    convert to floats exactly, the extraction looks the regions up at the
    point whose first coordinate is the longitude and whose second is the
    latitude, and for each tier on its own the record holds the name of the
    first row, in the collection's order, whose geometry contains that point,
    or [None] when no row does. *)
Theorem parse_flight_record_geocodes_lon_lat :
  forall la lo al more x y,
    as_number la = Some y ->
    as_number lo = Some x ->
    exists r,
      parse_flight_record (VList (la :: lo :: al :: more)) = Ok (Some r) /\
      lat r = la /\ lon r = lo /\ alt r = al /\
      first_containing countries (mkPoint x y) (country r) /\
      first_containing states (mkPoint x y) (state r).
Proof.
  intros la lo al more x y Hla Hlo.
  eexists. split.
  - apply parse_flight_record_numbers; eassumption.
  - simpl. repeat split; apply first_name_select.
Qed.

(** When every element of a sequence is a valid positional triple,
    [parse_snapshot] returns, without touching the trace, exactly one record
    per element and in the order of the input: the i-th record holds the
    first three slots of the i-th element. *)
Lemma parse_snapshot_sequence_of_valid_triples :
  forall items tr,
    forallb valid_candidate items = true ->
    exists rs,
      parse_snapshot (VList items) tr = (Ok rs, tr) /\
      Forall2 extracted items rs.
Proof.
  intros items tr Hvalid.
  destruct (extend_parsed_valid items Hvalid) as (rs & Hrs & Hall).
  exists rs. simpl. unfold lift. now rewrite Hrs.
Qed.

(** C6, on the code as it is: an invalid element does not contribute zero
    records, it makes the whole parse raise.  When an element that lacks
    three positional slots, or whose latitude or longitude is [None], follows
    any number of valid triples, [parse_snapshot] raises and returns no
    record at all, not even those of the valid triples before it. *)
Theorem parse_snapshot_invalid_element_raises :
  forall before item rest tr,
    forallb valid_candidate before = true ->
    lacks_slots item || null_position item = true ->
    exists e,
      parse_snapshot (VList (before ++ item :: rest)) tr = (Raise e, tr).
Proof.
  intros before item rest tr Hvalid Hinvalid.
  assert (Hitem : exists e, parse_flight_record item = Raise e).
  { apply orb_true_iff in Hinvalid. destruct Hinvalid as [Hlack | Hnull].
    - now apply parse_flight_record_lacking.
    - destruct item as [| | | | |[|la [|lo [|al more]]]|]; simpl in Hnull;
        try discriminate.
      apply parse_flight_record_None. apply orb_true_iff in Hnull.
      destruct Hnull as [Hla | Hlo]; [left | right].
      + destruct la; try discriminate; reflexivity.
      + destruct lo; try discriminate; reflexivity. }
  destruct Hitem as [e He]. exists e. simpl. unfold lift.
  now rewrite (extend_parsed_raises before item rest [] e Hvalid He).
Qed.


(** C8, on the code as it is: a malformed candidate cuts the fetches short.
    When the snapshot of offset 0 holds a candidate without three positional
    slots, [collect_flight_history N] raises after a single request, that of
    offset 0, for every [N] from 2 on: fewer than [N] fetch attempts. *)
Theorem collect_flight_history_malformed_stops_fetching :
  forall item rest N tr,
    lacks_slots item = true ->
    network (BASE_URL_format 0) = Response true (Some (VList (item :: rest))) ->
    1 < N ->
    (exists e, fst (collect_flight_history N tr) = Raise e) /\
    gets (snd (collect_flight_history N tr)) = gets tr ++ [BASE_URL_format 0] /\
    Z.of_nat (List.length [BASE_URL_format 0]) < N.
Proof.
  intros item rest N tr Hlack Hnet HN.
  destruct (parse_flight_record_lacking item Hlack) as [e He].
  destruct (range_head N) as [offsets Hrange]; [lia |].
  assert (Hsnap : snapshot_of 0 = VList (item :: rest))
    by (unfold snapshot_of; now rewrite Hnet).
  unfold collect_flight_history. rewrite Hrange.
  rewrite (collect_loop_raises 0 offsets [] tr e)
    by (rewrite Hsnap; simpl; now rewrite He).
  cbn [fst snd]. split; [eauto | split; [| simpl; lia]].
  destruct (parse_snapshot_no_request (snapshot_of 0)) as [Hg _].
  rewrite !gets_app, fetch_events_gets, Hg. now rewrite app_nil_r.
Qed.

(** With payloads the parser returns on, the requests are as many as the
    hours: for every [N >= 0], and whether the individual fetches succeed or
    fail, [collect_flight_history N] requests exactly the [N] snapshot URLs
    of the offsets 0, ..., N-1, each once and in this order;
    [collect_flight_history 0] returns the empty sequence and leaves the
    trace as it found it. *)
Lemma collect_flight_history_fetch_attempts :
  (forall N tr,
     0 <= N ->
     (forall h, 0 <= h < N -> exists rs, parsed_as (snapshot_of h) rs) ->
     exists all tr',
       collect_flight_history N tr = (Ok all, tr') /\
       gets tr' = gets tr ++ map BASE_URL_format (range N) /\
       Z.of_nat (List.length (map BASE_URL_format (range N))) = N) /\
  (forall tr, collect_flight_history 0 tr = (Ok [], tr)).
Proof.
  split.
  - intros N tr HN Hparse.
    destruct (batches_exist (range N)) as [batches Hbatches].
    { intros h Hh. apply Hparse. now apply range_In. }
    destruct (collect_loop_returns _ _ Hbatches [] tr)
      as (tr' & Hrun & Hgets & _).
    exists (List.concat batches), tr'. repeat split; auto.
    rewrite length_map. now apply range_length.
  - reflexivity.
Qed.

(** C9: for every [N >= 0] and a fixed result per offset, when the parser
    returns the batch [rs_h] on the snapshot fetched for each offset [h]
    below [N], [collect_flight_history N] returns the concatenation of the
    batches in increasing offset order. *)
Theorem collect_flight_history_concatenates_batches :
  forall N batches tr,
    0 <= N ->
    Forall2 (fun h rs => parsed_as (snapshot_of h) rs) (range N) batches ->
    fst (collect_flight_history N tr) = Ok (List.concat batches).
Proof.
  intros N batches tr _ Hbatches.
  destruct (collect_loop_returns _ _ Hbatches [] tr) as (tr' & Hrun & _).
  unfold collect_flight_history. now rewrite Hrun.
Qed.

(** C10: every record [parse_snapshot] returns is already geocoded (its
    country and state were looked up, during extraction, at the point of its
    own longitude and latitude) and has a latitude and a longitude that are
    not [None]; hence, when [collect_flight_history] returns, the count
    printed for each offset is the number of geocoded records of that
    offset's batch. *)
Theorem parse_snapshot_returns_geocoded_records :
  (forall raw tr rs tr',
     parse_snapshot raw tr = (Ok rs, tr') -> Forall enriched rs) /\
  (forall N tr all tr',
     collect_flight_history N tr = (Ok all, tr') ->
     exists batches,
       Forall2 (fun h rs => parsed_as (snapshot_of h) rs /\ Forall enriched rs)
               (range N) batches /\
       all = List.concat batches /\
       infos tr' =
       infos tr ++ combine (range N) (map (@List.length _) batches)).
Proof.
  split.
  - exact parse_snapshot_enriched.
  - intros N tr all tr' Hrun. unfold collect_flight_history in Hrun.
    destruct (collect_loop_inv _ _ _ _ _ Hrun) as (batches & Hbatches & ->).
    destruct (collect_loop_returns _ _ Hbatches [] tr)
      as (tr'' & Hrun' & _ & Hinfos).
    rewrite Hrun in Hrun'. injection Hrun' as <-.
    exists batches. repeat split; auto.
    clear Hrun Hinfos. induction Hbatches; constructor; auto.
    split; [assumption | eauto using parsed_as_enriched].
Qed.

End Facts.

(** ** The pipeline at work in the small world *)

Import Boxes.

(** The longitude is the first coordinate of the point: at latitude 42 and
    longitude 25 both countries contain the point and the first one is
    reported; with the axes exchanged neither would. *)
Example parse_flight_record_overlap :
  parse_flight_record countries states (VList [VFloat 42.0; VFloat 25.0; VNone]) =
  Ok (Some (mkRecord (VFloat 42.0) (VFloat 25.0) VNone (Some "Testland") None)) /\
  select countries (mkPoint 42.0 25.0) = [].
Proof. split; reflexivity. Qed.

(** A fetch that times out at offset 5, a 404 at offset 3 and a body that is
    not JSON at offset 4 leave the other offsets untouched. *)
Example collect_flight_history_offset_5_times_out :
  exists tr,
    collect_flight_history countries states network 7 [] =
    (Ok [ mkRecord (VFloat 45.0) (VFloat 10.0) (VInt 1500) (Some "Testland") (Some "Southwest");
          mkRecord (VFloat 42.0) (VFloat 25.0) VNone (Some "Testland") None;
          mkRecord (VFloat 45.0) (VFloat 10.0) (VInt 1500) (Some "Testland") (Some "Southwest");
          mkRecord (VFloat 42.0) (VFloat 25.0) VNone (Some "Testland") None;
          mkRecord (VFloat 1.0) (VFloat 1.0) (VInt 100) None None;
          mkRecord (VFloat 45.0) (VFloat 10.0) (VInt 1500) (Some "Testland") (Some "Southwest");
          mkRecord (VFloat 42.0) (VFloat 25.0) VNone (Some "Testland") None ], tr) /\
    infos tr = [(0, 2%nat); (1, 2%nat); (2, 1%nat); (3, 0%nat); (4, 0%nat);
                (5, 0%nat); (6, 2%nat)] /\
    List.length (gets tr) = 7%nat.
Proof. eexists. vm_compute. repeat split. Qed.

(** In this world the second candidate of the payload of C2 raises
    [TypeError]. *)
Example parse_snapshot_null_latitude_TypeError :
  parse_snapshot countries states
    (VList [ VList [VFloat 10.0; VFloat 20.0; VInt 1500];
             VList [VNone; VFloat 5.0; VInt 300] ]) [] = (Raise TypeError, []).
Proof. reflexivity. Qed.

Lemma parse_snapshot_malformed_candidate_raises_witness :
  forallb valid_candidate [valid_flight] = true /\
  lacks_slots short_flight = true /\
  exists e,
    parse_snapshot countries states
      (VList ([valid_flight] ++ short_flight :: [])) [] = (Raise e, []).
Proof.
  split; [reflexivity | split; [reflexivity |]].
  apply (parse_snapshot_malformed_candidate_raises countries states
           [valid_flight] short_flight [] []); reflexivity.
Defined.

Lemma collect_flight_history_candidate_error_propagates_witness :
  lacks_slots short_flight = true /\
  short_network (BASE_URL_format 0) =
    Response true (Some (VList (short_flight :: []))) /\
  0 < 2 /\
  exists e,
    collect_flight_history countries states short_network 2 [] =
    (Raise e, [] ++ [Get (BASE_URL_format 0)]).
Proof.
  split; [reflexivity | split; [reflexivity | split; [lia |]]].
  apply (collect_flight_history_candidate_error_propagates countries states
           short_network short_flight [] 2 []); [reflexivity | reflexivity | lia].
Defined.

(** C4, as stated, fails at [hours = -1]: the call returns the empty window
    and raises nothing. *)
Lemma collect_flight_history_minus_one_returns :
  collect_flight_history countries states network (-1) [] = (Ok [], []) /\
  ~ (exists e,
       fst (collect_flight_history countries states network (-1) []) = Raise e).
Proof.
  split; [reflexivity |]. intros [e He]. discriminate He.
Qed.

Lemma collect_flight_history_negative_hours_witness :
  -1 < 0 /\
  collect_flight_history countries states network (-1) [] = (Ok [], []).
Proof.
  split; [lia |].
  apply (collect_flight_history_negative_hours countries states network (-1) []).
  lia.
Defined.

Lemma parse_flight_record_geocodes_lon_lat_witness :
  as_number (VFloat 42.0) = Some 42.0%Q /\
  as_number (VFloat 25.0) = Some 25.0%Q /\
  exists r,
    parse_flight_record countries states
      (VList (VFloat 42.0 :: VFloat 25.0 :: VNone :: [])) = Ok (Some r) /\
    lat r = VFloat 42.0 /\ lon r = VFloat 25.0 /\ alt r = VNone /\
    first_containing countries (mkPoint 25.0 42.0) (country r) /\
    first_containing states (mkPoint 25.0 42.0) (state r).
Proof.
  split; [reflexivity | split; [reflexivity |]].
  apply (parse_flight_record_geocodes_lon_lat countries states
           (VFloat 42.0) (VFloat 25.0) VNone [] 25.0%Q 42.0%Q); reflexivity.
Defined.

Lemma parse_snapshot_sequence_of_valid_triples_witness :
  forallb valid_candidate
    [valid_flight; VList [VFloat 42.0; VFloat 25.0; VNone]] = true /\
  exists rs,
    parse_snapshot countries states
      (VList [valid_flight; VList [VFloat 42.0; VFloat 25.0; VNone]]) [] =
    (Ok rs, []) /\
    Forall2 extracted
      [valid_flight; VList [VFloat 42.0; VFloat 25.0; VNone]] rs.
Proof.
  split; [reflexivity |].
  apply (parse_snapshot_sequence_of_valid_triples countries states
           [valid_flight; VList [VFloat 42.0; VFloat 25.0; VNone]] []).
  reflexivity.
Defined.


Lemma first_batches_parsed :
  Forall2 (fun h rs => parsed_as countries states (snapshot_of network h) rs)
          (range 3) first_batches.
Proof. repeat constructor. Qed.

(** With a one-slot candidate in the payload of offset 0,
    [collect_flight_history 2] issues one request instead of two. *)
Lemma collect_flight_history_stops_fetching :
  collect_flight_history countries states short_network 2 [] =
  (Raise IndexError, [Get (BASE_URL_format 0)]) /\
  List.length
    (gets (snd (collect_flight_history countries states short_network 2 [])))
  <> 2%nat.
Proof.
  split; [reflexivity |]. vm_compute. discriminate.
Qed.

Lemma collect_flight_history_fetch_attempts_witness :
  0 <= 3 /\
  (forall h, 0 <= h < 3 ->
     exists rs, parsed_as countries states (snapshot_of network h) rs) /\
  exists all tr',
    collect_flight_history countries states network 3 [] = (Ok all, tr') /\
    gets tr' = gets [] ++ map BASE_URL_format (range 3) /\
    Z.of_nat (List.length (map BASE_URL_format (range 3))) = 3.
Proof.
  assert (Hparse : forall h, 0 <= h < 3 ->
            exists rs, parsed_as countries states (snapshot_of network h) rs).
  { intros h Hh.
    assert (Hcases : h = 0 \/ h = 1 \/ h = 2) by lia.
    destruct Hcases as [-> | [-> | ->]]; eexists; intros tr; reflexivity. }
  split; [lia | split; [exact Hparse |]].
  apply (proj1 (collect_flight_history_fetch_attempts countries states network)
           3 []); [lia | exact Hparse].
Defined.

Lemma collect_flight_history_concatenates_batches_witness :
  0 <= 3 /\
  Forall2 (fun h rs => parsed_as countries states (snapshot_of network h) rs)
          (range 3) first_batches /\
  fst (collect_flight_history countries states network 3 []) =
  Ok (List.concat first_batches).
Proof.
  split; [lia | split; [exact first_batches_parsed |]].
  apply (collect_flight_history_concatenates_batches countries states network
           3 first_batches []); [lia | exact first_batches_parsed].
Defined.

Lemma parse_snapshot_returns_geocoded_records_witness :
  collect_flight_history countries states network 3 [] =
  (Ok (List.concat first_batches),
   snd (collect_flight_history countries states network 3 [])) /\
  exists batches,
    Forall2 (fun h rs => parsed_as countries states (snapshot_of network h) rs /\
                         Forall (enriched countries states) rs)
            (range 3) batches /\
    List.concat first_batches = List.concat batches /\
    infos (snd (collect_flight_history countries states network 3 [])) =
    infos [] ++ combine (range 3) (map (@List.length _) batches).
Proof.
  split; [reflexivity |].
  apply (proj2 (parse_snapshot_returns_geocoded_records countries states network)
           3 [] (List.concat first_batches)
           (snd (collect_flight_history countries states network 3 []))).
  reflexivity.
Defined.

(** With a one-slot candidate in the payload of offset 0 the [IndexError]
    of the extraction leaves [collect_flight_history 1], and no record
    sequence is returned. *)
Lemma collect_flight_history_aborts_on_candidate :
  collect_flight_history countries states short_network 1 [] =
  (Raise IndexError, [Get (BASE_URL_format 0)]) /\
  ~ (exists rs,
       fst (collect_flight_history countries states short_network 1 []) = Ok rs).
Proof.
  split; [reflexivity |]. intros [rs Hrs]. discriminate Hrs.
Qed.

Lemma network_payloads_parse :
  forall h, 0 <= h < 7 -> fetch_failed network h = false ->
    exists rs, parsed_as countries states (snapshot_of network h) rs.
Proof.
  intros h Hh _.
  assert (Hcases : h = 0 \/ h = 1 \/ h = 2 \/ h = 3 \/ h = 4 \/ h = 5 \/ h = 6)
    by lia.
  destruct Hcases as [-> | [-> | [-> | [-> | [-> | [-> | ->]]]]]];
    eexists; intros tr; reflexivity.
Qed.

Lemma collect_flight_history_contains_fetch_failures_witness :
  (forall h, 0 <= h < 7 -> fetch_failed network h = false ->
     exists rs, parsed_as countries states (snapshot_of network h) rs) /\
  fetch_failed network 5 = true /\
  exists batches tr',
    collect_flight_history countries states network 7 [] =
    (Ok (List.concat batches), tr') /\
    Forall2 (fun h rs => parsed_as countries states (snapshot_of network h) rs /\
                         (fetch_failed network h = true -> rs = []))
            (range 7) batches.
Proof.
  split; [exact network_payloads_parse | split; [reflexivity |]].
  apply (collect_flight_history_contains_fetch_failures countries states network
           7 [] network_payloads_parse).
Defined.

(** * Further properties *)

(** ** The offset field of the URL *)

Lemma to_int_string_parses : forall h,
  NilZero.int_of_string (NilZero.string_of_int (Z.to_int h)) = Some (Z.to_int h).
Proof.
  intros h. apply NilZero.isi; destruct h; simpl; try discriminate.
  all: intros [= E]; revert E; apply DecimalPos.Unsigned.to_uint_nonnil.
Qed.

Lemma offset_of_field_format_02d : forall h,
  offset_of_field (format_02d h) = Some h.
Proof.
  intros h. unfold format_02d, offset_of_field.
  pose proof (to_int_string_parses h) as Hparse.
  destruct (NilZero.string_of_int (Z.to_int h)) as [|c [|c' s]] eqn:Hs.
  - discriminate Hparse.
  - cbn [NilZero.int_of_string NilZero.uint_of_string NilEmpty.uint_of_string]
      in Hparse.
    destruct (Ascii.eqb c "-"); [discriminate Hparse |].
    destruct (uint_of_char c (Some Decimal.Nil)) as [d|] eqn:Hd;
      [| discriminate Hparse].
    injection Hparse as Hd'.
    change (option_map Z.of_int
              (option_map Decimal.Pos
                 (uint_of_char "0" (uint_of_char c (Some Decimal.Nil)))) = Some h).
    rewrite Hd.
    change (Some (Z.of_int (Decimal.Pos d)) = Some h).
    rewrite Hd'. f_equal. apply DecimalZ.of_to.
  - change (option_map Z.of_int
              (NilZero.int_of_string (String c (String c' s))) = Some h).
    rewrite <- Hs, to_int_string_parses. simpl. f_equal. apply DecimalZ.of_to.
Qed.

Lemma format_02d_width_check :
  forallb (fun h => (String.length (format_02d h) =? 2)%nat) (range 100) = true.
Proof. vm_compute. reflexivity. Qed.

(** For the offsets 0 to 99 the field is exactly two characters wide. *)
Theorem format_02d_two_digits : forall h,
  0 <= h < 100 -> String.length (format_02d h) = 2%nat.
Proof.
  intros h Hh. apply Nat.eqb_eq.
  pose proof format_02d_width_check as Hall.
  rewrite forallb_forall in Hall. apply (Hall h). now apply range_In.
Qed.

Lemma append_length : forall s t,
  String.length (s ++ t)%string = (String.length s + String.length t)%nat.
Proof.
  induction s as [|c s IH]; intros t; simpl; [reflexivity | now rewrite IH].
Qed.

Lemma append_inv_head : forall p s t, (p ++ s = p ++ t)%string -> s = t.
Proof.
  induction p as [|c p IH]; intros s t Heq; simpl in Heq; [assumption |].
  injection Heq as Heq. now apply IH.
Qed.

Lemma append_inv_tail : forall s t q, (s ++ q = t ++ q)%string -> s = t.
Proof.
  induction s as [|c s IH]; intros [|d t] q Heq; simpl in Heq.
  - reflexivity.
  - apply (f_equal String.length) in Heq. simpl in Heq.
    rewrite append_length in Heq. lia.
  - apply (f_equal String.length) in Heq. simpl in Heq.
    rewrite append_length in Heq. lia.
  - injection Heq as -> Heq. f_equal. now apply (IH t q).
Qed.

Lemma BASE_URL_format_inj : forall h k,
  BASE_URL_format h = BASE_URL_format k -> h = k.
Proof.
  intros h k Heq. unfold BASE_URL_format in Heq.
  apply append_inv_head, append_inv_tail in Heq.
  apply (f_equal offset_of_field) in Heq.
  rewrite !offset_of_field_format_02d in Heq. now injection Heq.
Qed.

Lemma NoDup_map_inj : forall (A B : Type) (f : A -> B) (l : list A),
  (forall x y, f x = f y -> x = y) -> NoDup l -> NoDup (map f l).
Proof.
  intros A B f l Hinj Hl. induction Hl as [|x l Hx _ IH]; simpl; constructor;
    auto.
  intros Hin. apply in_map_iff in Hin. destruct Hin as (y & Hy & Hin).
  apply Hinj in Hy. now subst.
Qed.

Lemma range_NoDup : forall n, NoDup (range n).
Proof.
  intros n. unfold range. apply NoDup_map_inj.
  - intros x y. apply Nat2Z.inj.
  - apply seq_NoDup.
Qed.

Lemma snapshot_urls_distinct : forall offsets,
  NoDup offsets -> NoDup (map BASE_URL_format offsets).
Proof.
  intros offsets. apply NoDup_map_inj. exact BASE_URL_format_inj.
Qed.

(** The offset can be read back from its field, whatever the offset: the
    padding loses nothing and no digit is cut off.  Hence two offsets with
    the same URL are the same offset. *)
Theorem format_02d_round_trip :
  (forall h, offset_of_field (format_02d h) = Some h) /\
  (forall h k, BASE_URL_format h = BASE_URL_format k -> h = k).
Proof.
  split; [exact offset_of_field_format_02d | exact BASE_URL_format_inj].
Qed.

Lemma format_02d_two_digits_witness :
  0 <= 7 < 100 /\ String.length (format_02d 7) = 2%nat.
Proof.
  split; [lia |]. apply (format_02d_two_digits 7). lia.
Defined.

Section MoreFacts.

Context `{GeoEngine}.
Variable countries : list feature.
Variable states : list feature.
Variable network : string -> http_outcome.

Notation parse_flight_record := (parse_flight_record countries states).
Notation extend_parsed := (extend_parsed countries states).
Notation scan_entries := (scan_entries countries states).
Notation parse_snapshot := (parse_snapshot countries states).
Notation fetch_snapshot := (fetch_snapshot network).
Notation collect_loop := (collect_loop countries states network).
Notation collect_flight_history := (collect_flight_history countries states network).
Notation parsed_as := (parsed_as countries states).
Notation snapshot_of := (snapshot_of network).
Notation fetch_failed := (fetch_failed network).
Notation fetch_events := (fetch_events network).

(** ** One fetch *)

(** [fetch_snapshot] never raises and issues exactly one request, to the URL
    of its offset.  After a failure of any kind it returns [None] and has
    printed one error line naming the URL; after a success it returns the
    decoded body and has printed nothing. *)
Theorem fetch_snapshot_never_raises : forall h tr,
  exists v tr',
    fetch_snapshot h tr = (Ok v, tr') /\
    gets tr' = gets tr ++ [BASE_URL_format h] /\
    (fetch_failed h = true ->
       v = VNone /\
       exists e,
         tr' = tr ++ [Get (BASE_URL_format h);
                      Print (MsgError (BASE_URL_format h) e)]) /\
    (fetch_failed h = false ->
       network (BASE_URL_format h) = Response true (Some v) /\
       tr' = tr ++ [Get (BASE_URL_format h)]).
Proof.
  intros h tr. rewrite fetch_snapshot_run.
  exists (snapshot_of h), (tr ++ fetch_events h).
  split; [reflexivity |]. split.
  - now rewrite gets_app, fetch_events_gets.
  - unfold snapshot_of, fetch_failed, fetch_events.
    destruct (network (BASE_URL_format h)) as [e | [|] [v|]]; simpl;
      split; intros Hf; try discriminate Hf; split; eauto.
Qed.

(** ** Extraction *)

(** Which exception a candidate without three positional slots meets: a JSON
    object, the shape the docstring of [parse_snapshot] names, is looked up
    with key [0] and raises [KeyError]; a list or a string shorter than three
    raises [IndexError]; [None], a boolean or a number raises [TypeError]. *)
Theorem parse_flight_record_exception_by_shape :
  (forall entries, parse_flight_record (VDict entries) = Raise KeyError) /\
  (forall slots, (List.length slots < 3)%nat ->
     parse_flight_record (VList slots) = Raise IndexError) /\
  (forall s, (String.length s < 3)%nat ->
     parse_flight_record (VStr s) = Raise IndexError) /\
  (forall obj, type_of obj = TNoneType \/ type_of obj = TBool \/
               type_of obj = TInt \/ type_of obj = TFloat ->
     parse_flight_record obj = Raise TypeError).
Proof.
  repeat split.
  - apply parse_flight_record_short.
  - intros [|a [|b [|c s]]] Hlen; simpl in Hlen; try lia; reflexivity.
  - intros [| b | z | q | s | items | entries] Hty; simpl in Hty;
      try reflexivity; destruct Hty as [Hty | [Hty | [Hty | Hty]]];
      discriminate Hty.
Qed.

Lemma parse_flight_record_extracted : forall obj r,
  parse_flight_record obj = Ok (Some r) -> extracted obj r.
Proof.
  intros obj r. unfold parse_flight_record, extracted.
  destruct (getitem obj 0) as [la|]; simpl; [| discriminate].
  destruct (getitem obj 1) as [lo|]; simpl; [| discriminate].
  destruct (getitem obj 2) as [al|]; simpl; [| discriminate].
  destruct (Point lo la) as [p|]; simpl; [| discriminate].
  destruct (is_None la || is_None lo); [discriminate |].
  intros [= <-]. simpl. auto.
Qed.

Lemma extend_parsed_all : forall items acc rs,
  extend_parsed items acc = Ok rs ->
  exists new, rs = acc ++ new /\ Forall2 extracted items new.
Proof.
  induction items as [|item rest IH]; intros acc rs; simpl.
  - intros [= <-]. exists []. split; [now rewrite app_nil_r | constructor].
  - destruct (parse_flight_record item) as [[r|]|e] eqn:Hitem; simpl;
      try discriminate.
    + intros Hrest. apply IH in Hrest. destruct Hrest as (new & -> & Hnew).
      exists (r :: new). split; [now rewrite <- app_assoc |].
      constructor; auto using parse_flight_record_extracted.
    + now apply parse_flight_record_never_None in Hitem.
Qed.

Lemma scan_entries_all : forall entries acc rs,
  scan_entries entries acc = Ok rs ->
  exists new,
    rs = acc ++ new /\
    Forall2 extracted (List.concat (sequence_values entries)) new.
Proof.
  induction entries as [|[key v] rest IH]; intros acc rs; simpl.
  - intros [= <-]. exists []. split; [now rewrite app_nil_r | constructor].
  - destruct v; eauto.
    destruct (extend_parsed items acc) as [rs'|e] eqn:Hitems; simpl;
      [| discriminate].
    intros Hrest. apply IH in Hrest. destruct Hrest as (new2 & -> & Hnew2).
    apply extend_parsed_all in Hitems. destruct Hitems as (new1 & -> & Hnew1).
    exists (new1 ++ new2). split; [now rewrite app_assoc |].
    simpl. now apply Forall2_app.
Qed.

(** No candidate is ever skipped.  Whenever [parse_snapshot] returns, it
    returns exactly one record per candidate of the payload, in the order of
    the candidates, each holding the first three slots of its candidate: the
    [None] branch of [parse_flight_record] is never taken. *)
Theorem parse_snapshot_one_record_per_candidate : forall raw tr rs tr',
  parse_snapshot raw tr = (Ok rs, tr') ->
  Forall2 extracted (candidates raw) rs /\
  List.length rs = List.length (candidates raw).
Proof.
  intros raw tr rs tr' Hrun.
  assert (Hall : Forall2 extracted (candidates raw) rs).
  { destruct raw; simpl in *; unfold ret, lift, bind, print, emit in Hrun;
      simpl in Hrun; inversion Hrun; subst; try constructor.
    - match goal with
      | Hx : extend_parsed _ _ = Ok _ |- _ =>
          apply extend_parsed_all in Hx; destruct Hx as (new & -> & Hnew)
      end. exact Hnew.
    - match goal with
      | Hx : scan_entries _ _ = Ok _ |- _ =>
          apply scan_entries_all in Hx; destruct Hx as (new & -> & Hnew)
      end. exact Hnew.
  }
  split; [exact Hall |]. symmetry. eapply Forall2_length; eassumption.
Qed.

Lemma extend_parsed_raise_origin : forall items acc e,
  extend_parsed items acc = Raise e ->
  exists before item after,
    items = before ++ item :: after /\
    parse_flight_record item = Raise e /\
    Forall (fun c => exists r, parse_flight_record c = Ok (Some r)) before.
Proof.
  induction items as [|item rest IH]; intros acc e; simpl; [discriminate |].
  destruct (parse_flight_record item) as [[r|]|e'] eqn:Hitem; simpl.
  - intros Hrest. apply IH in Hrest.
    destruct Hrest as (before & bad & after & -> & Hbad & Hbefore).
    exists (item :: before), bad, after. repeat split; eauto.
  - now apply parse_flight_record_never_None in Hitem.
  - intros [= <-]. exists [], item, rest. repeat split; auto.
Qed.

Lemma extend_parsed_returns_all : forall items acc rs,
  extend_parsed items acc = Ok rs ->
  Forall (fun c => exists r, parse_flight_record c = Ok (Some r)) items.
Proof.
  induction items as [|item rest IH]; intros acc rs; simpl; [constructor |].
  destruct (parse_flight_record item) as [[r|]|e'] eqn:Hitem; simpl;
    try discriminate.
  - intros Hrest. constructor; eauto.
  - now apply parse_flight_record_never_None in Hitem.
Qed.

Lemma scan_entries_raise_origin : forall entries acc e,
  scan_entries entries acc = Raise e ->
  exists before item after,
    List.concat (sequence_values entries) = before ++ item :: after /\
    parse_flight_record item = Raise e /\
    Forall (fun c => exists r, parse_flight_record c = Ok (Some r)) before.
Proof.
  induction entries as [|[key v] rest IH]; intros acc e; simpl;
    [discriminate |].
  destruct v; eauto.
  destruct (extend_parsed items acc) as [rs|e'] eqn:Hitems; simpl.
  - intros Hrest. apply IH in Hrest.
    destruct Hrest as (before & bad & after & Heq & Hbad & Hbefore).
    exists (items ++ before), bad, after. rewrite Heq, <- app_assoc.
    repeat split; auto. apply Forall_app. split; auto.
    eapply extend_parsed_returns_all; eassumption.
  - intros [= <-]. apply extend_parsed_raise_origin in Hitems.
    destruct Hitems as (before & bad & after & -> & Hbad & Hbefore).
    exists before, bad, (after ++ List.concat (sequence_values rest)).
    rewrite <- app_assoc. repeat split; auto.
Qed.

(** [parse_snapshot] raises only through a candidate.  When it raises, the
    payload is a list or a dict, the trace is as it was, and the exception is
    the one of the first candidate, in visiting order, on which the
    extraction does not return; on [None] and on any scalar payload it
    returns. *)
Theorem parse_snapshot_raise_origin : forall raw tr e tr',
  parse_snapshot raw tr = (Raise e, tr') ->
  tr' = tr /\
  exists before item after,
    candidates raw = before ++ item :: after /\
    parse_flight_record item = Raise e /\
    Forall (fun c => exists r, parse_flight_record c = Ok (Some r)) before.
Proof.
  intros raw tr e tr' Hrun.
  destruct raw; simpl in *; unfold ret, lift, bind, print, emit in Hrun;
    simpl in Hrun; inversion Hrun; subst; split; auto.
  - eapply extend_parsed_raise_origin; eassumption.
  - eapply scan_entries_raise_origin; eassumption.
Qed.

(** ** The aggregator *)

Lemma range_app : forall N M,
  N <= M -> exists later, range M = range N ++ later.
Proof.
  intros N M Hle. unfold range.
  replace (Z.to_nat M) with (Z.to_nat N + (Z.to_nat M - Z.to_nat N))%nat by lia.
  rewrite seq_app, map_app. eauto.
Qed.

Lemma range_succ : forall N, 0 <= N -> range (N + 1) = range N ++ [N].
Proof.
  intros N HN. unfold range.
  replace (Z.to_nat (N + 1)) with (S (Z.to_nat N)) by lia.
  rewrite seq_S, map_app. simpl. now rewrite Z2Nat.id.
Qed.

Lemma range_prefix : forall n start before h after,
  map Z.of_nat (seq start n) = before ++ h :: after ->
  before = map Z.of_nat (seq start (List.length before)) /\
  h = Z.of_nat (start + List.length before).
Proof.
  intros n start before. revert n start.
  induction before as [|b before IH]; intros [|n] start h after Heq;
    simpl in Heq; try discriminate.
  - injection Heq as <- _. simpl. now rewrite Nat.add_0_r.
  - injection Heq as <- Heq. apply IH in Heq. destruct Heq as [Hbefore ->].
    simpl. split; [now rewrite <- Hbefore | f_equal; lia].
Qed.

Lemma range_split : forall N before h after,
  range N = before ++ h :: after ->
  0 <= h < N /\ before = range h /\ List.length before = Z.to_nat h.
Proof.
  intros N before h after Heq.
  assert (Hin : In h (range N)) by (rewrite Heq; apply in_elt).
  apply range_In in Hin.
  destruct (range_prefix _ _ _ _ _ Heq) as [Hbefore ->].
  simpl in *. rewrite Nat2Z.id. repeat split; try lia.
  unfold range. now rewrite Nat2Z.id.
Qed.

Lemma firstn_In : forall (A : Type) (k : nat) (l : list A) (x : A),
  In x (firstn k l) -> In x l.
Proof.
  intros A k l x Hin. rewrite <- (firstn_skipn k l).
  apply in_or_app. now left.
Qed.

Lemma NoDup_firstn : forall (A : Type) (k : nat) (l : list A),
  NoDup l -> NoDup (firstn k l).
Proof.
  intros A k l Hl. revert k.
  induction Hl as [|x l Hx _ IH]; intros [|k]; simpl; try constructor; auto.
  intros Hin. apply Hx. eapply firstn_In; eassumption.
Qed.

Lemma collect_loop_app : forall first later acc tr,
  collect_loop (first ++ later) acc tr =
  bind (collect_loop first acc) (fun a => collect_loop later a) tr.
Proof.
  induction first as [|h first IH]; intros later acc tr; simpl.
  - reflexivity.
  - unfold bind in IH |- *. rewrite fetch_snapshot_run.
    destruct (parse_snapshot (snapshot_of h) (tr ++ fetch_events h))
      as [[rs|e] t]; [| reflexivity].
    unfold print, emit. apply IH.
Qed.

Lemma collect_loop_extends : forall offsets acc tr,
  exists more, snd (collect_loop offsets acc tr) = tr ++ more.
Proof.
  induction offsets as [|h offsets IH]; intros acc tr; simpl.
  - exists []. unfold ret. simpl. now rewrite app_nil_r.
  - unfold bind at 1. rewrite fetch_snapshot_run.
    unfold bind at 1. rewrite parse_snapshot_frame.
    destruct (fst (parse_snapshot (snapshot_of h) [])) as [rs|e].
    + unfold bind at 1, print, emit.
      match goal with
      | |- exists more, snd (collect_loop _ ?a ?t) = _ =>
          destruct (IH a t) as [more ->]
      end.
      rewrite <- !app_assoc. eauto.
    + simpl. rewrite <- app_assoc. eauto.
Qed.

Lemma collect_loop_cons : forall h offsets acc tr,
  collect_loop (h :: offsets) acc tr =
  match fst (parse_snapshot (snapshot_of h) []) with
  | Ok rs =>
      collect_loop offsets (acc ++ rs)
        (((tr ++ fetch_events h) ++ snd (parse_snapshot (snapshot_of h) []))
         ++ [Print (MsgInfo h (List.length rs))])
  | Raise e =>
      (Raise e, (tr ++ fetch_events h) ++ snd (parse_snapshot (snapshot_of h) []))
  end.
Proof.
  intros h offsets acc tr. simpl.
  unfold bind at 1. rewrite fetch_snapshot_run.
  unfold bind at 1. rewrite parse_snapshot_frame.
  now destruct (fst (parse_snapshot (snapshot_of h) [])).
Qed.

Lemma collect_loop_requests : forall offsets acc tr,
  exists k,
    (k <= List.length offsets)%nat /\
    gets (snd (collect_loop offsets acc tr)) =
    gets tr ++ map BASE_URL_format (firstn k offsets) /\
    (forall a, fst (collect_loop offsets acc tr) = Ok a ->
               k = List.length offsets) /\
    (forall e, fst (collect_loop offsets acc tr) = Raise e -> (0 < k)%nat).
Proof.
  induction offsets as [|h offsets IH]; intros acc tr.
  - exists 0%nat. simpl. unfold ret. simpl. rewrite app_nil_r.
    repeat split; auto; discriminate.
  - rewrite collect_loop_cons.
    destruct (parse_snapshot_no_request countries states (snapshot_of h))
      as [Hg _].
    destruct (fst (parse_snapshot (snapshot_of h) [])) as [rs|e].
    + match goal with
      | |- context [collect_loop offsets ?a ?t] =>
          destruct (IH a t) as (k & Hk & Hgets & Hok & Hraise)
      end.
      exists (S k). simpl. rewrite Hgets, !gets_app, fetch_events_gets, Hg.
      simpl. rewrite !app_nil_r, <- app_assoc.
      repeat split; auto; try lia.
      intros a Ha. f_equal. eauto.
    + exists 1%nat. simpl. rewrite !gets_app, fetch_events_gets, Hg.
      simpl. rewrite app_nil_r.
      repeat split; auto; try lia; discriminate.
Qed.

(** Whatever happens, the requests of [collect_flight_history N] are those
    of the offsets 0, 1, ... up to some offset below [N], in this order and
    each URL once: no offset is skipped, fetched twice or fetched out of
    turn, and no offset outside the window is fetched.  When the call
    returns, all [N] of them were fetched. *)
Theorem collect_flight_history_requests_prefix : forall N tr,
  exists k,
    (k <= Z.to_nat N)%nat /\
    gets (snd (collect_flight_history N tr)) =
    gets tr ++ map BASE_URL_format (firstn k (range N)) /\
    NoDup (map BASE_URL_format (firstn k (range N))) /\
    (forall a, fst (collect_flight_history N tr) = Ok a -> k = Z.to_nat N).
Proof.
  intros N tr. unfold collect_flight_history.
  destruct (collect_loop_requests (range N) [] tr)
    as (k & Hk & Hgets & Hok & _).
  assert (Hlen : List.length (range N) = Z.to_nat N)
    by (unfold range; now rewrite length_map, length_seq).
  exists k. rewrite Hlen in *. repeat split; auto.
  apply snapshot_urls_distinct, NoDup_firstn, range_NoDup.
Qed.

Lemma collect_loop_raise_origin : forall offsets acc tr e tr',
  collect_loop offsets acc tr = (Raise e, tr') ->
  exists before h after,
    offsets = before ++ h :: after /\
    fst (parse_snapshot (snapshot_of h) []) = Raise e /\
    Forall (fun k => exists rs, parsed_as (snapshot_of k) rs) before /\
    gets tr' = gets tr ++ map BASE_URL_format (before ++ [h]) /\
    List.length (infos tr') = (List.length (infos tr) + List.length before)%nat.
Proof.
  induction offsets as [|h offsets IH]; intros acc tr e tr'; simpl.
  - unfold ret. discriminate.
  - unfold bind at 1. rewrite fetch_snapshot_run.
    unfold bind at 1. rewrite parse_snapshot_frame.
    destruct (parse_snapshot_no_request countries states (snapshot_of h))
      as [Hg Hi].
    destruct (fst (parse_snapshot (snapshot_of h) [])) as [rs|e0] eqn:Hrs.
    + unfold bind at 1, print, emit. intros Hrun. apply IH in Hrun.
      destruct Hrun as (before & bad & after & -> & Hbad & Hbefore & Hgets & Hinfos).
      exists (h :: before), bad, after. repeat split; auto.
      * constructor; auto. exists rs. now apply parsed_as_frame.
      * rewrite Hgets, !gets_app, fetch_events_gets, Hg. simpl.
        rewrite !app_nil_r, <- app_assoc. reflexivity.
      * rewrite Hinfos, !infos_app, fetch_events_infos, Hi. simpl.
        rewrite !app_nil_r, length_app. simpl. lia.
    + intros [= <- <-]. exists [], h, offsets. repeat split; auto.
      * rewrite <- app_assoc, !gets_app, fetch_events_gets, Hg. simpl.
        reflexivity.
      * rewrite <- app_assoc, !infos_app, fetch_events_infos, Hi. simpl.
        rewrite app_nil_r. lia.
Qed.

(** Network failures never leave [collect_flight_history].  When the call
    raises, the exception is the one [parse_snapshot] raises on the snapshot
    of some offset [h] of the window; the parser returned on every earlier
    offset, the requests made are those of the offsets 0 to [h], and one
    progress line was printed for each offset before [h]. *)
Theorem collect_flight_history_raise_origin : forall N tr e tr',
  collect_flight_history N tr = (Raise e, tr') ->
  exists h,
    0 <= h < N /\
    fst (parse_snapshot (snapshot_of h) []) = Raise e /\
    (forall k, 0 <= k < h -> exists rs, parsed_as (snapshot_of k) rs) /\
    gets tr' = gets tr ++ map BASE_URL_format (range (h + 1)) /\
    List.length (infos tr') = (List.length (infos tr) + Z.to_nat h)%nat.
Proof.
  intros N tr e tr' Hrun. unfold collect_flight_history in Hrun.
  apply collect_loop_raise_origin in Hrun.
  destruct Hrun as (before & h & after & Heq & Hbad & Hbefore & Hgets & Hinfos).
  destruct (range_split _ _ _ _ Heq) as (Hh & -> & Hlen).
  exists h. repeat split; try lia; auto.
  - intros k Hk. rewrite Forall_forall in Hbefore. apply Hbefore.
    apply range_In. lia.
  - rewrite range_succ by lia. exact Hgets.
Qed.

Lemma combine_lengths : forall (offsets : list Z) (batches : list (list flight_record)),
  List.length offsets = List.length batches ->
  map fst (combine offsets (map (@List.length _) batches)) = offsets /\
  map snd (combine offsets (map (@List.length _) batches)) =
  map (@List.length _) batches.
Proof.
  induction offsets as [|h offsets IH]; intros [|rs batches] Hlen;
    simpl in *; try discriminate; auto.
  injection Hlen as Hlen. destruct (IH batches Hlen) as [-> ->]. auto.
Qed.

(** The progress lines account for the result.  When
    [collect_flight_history N] returns, it has printed one progress line per
    offset of the window, in increasing offset order, and the counts it
    printed add up to the number of records it returns. *)
Theorem collect_flight_history_counts_add_up : forall N tr all tr',
  collect_flight_history N tr = (Ok all, tr') ->
  map fst (infos tr') = map fst (infos tr) ++ range N /\
  printed_total tr' = (printed_total tr + List.length all)%nat.
Proof.
  intros N tr all tr' Hrun. unfold collect_flight_history in Hrun.
  destruct (collect_loop_inv _ _ _ _ _ _ _ _ Hrun) as (batches & Hbatches & ->).
  destruct (collect_loop_returns _ _ _ _ _ Hbatches [] tr)
    as (tr'' & Hrun' & _ & Hinfos).
  rewrite Hrun in Hrun'. injection Hrun' as <-.
  destruct (combine_lengths _ _ (Forall2_length Hbatches)) as [Hfst Hsnd].
  unfold printed_total. rewrite Hinfos, !map_app, Hfst, Hsnd, list_sum_app.
  simpl. now rewrite length_concat.
Qed.

(** A longer window extends a shorter one.  For [N <= M], a run of
    [collect_flight_history N] that raises is repeated unchanged by
    [collect_flight_history M], and when both return, the records and the
    trace of the shorter run are a prefix of those of the longer one. *)
Theorem collect_flight_history_window_prefix : forall N M tr,
  N <= M ->
  (forall e tr1,
     collect_flight_history N tr = (Raise e, tr1) ->
     collect_flight_history M tr = (Raise e, tr1)) /\
  (forall a tr1 b tr2,
     collect_flight_history N tr = (Ok a, tr1) ->
     collect_flight_history M tr = (Ok b, tr2) ->
     exists rest more, b = a ++ rest /\ tr2 = tr1 ++ more).
Proof.
  intros N M tr Hle. destruct (range_app N M Hle) as [later Hrange].
  unfold collect_flight_history. rewrite Hrange, collect_loop_app.
  unfold bind. split.
  - intros e tr1 ->. reflexivity.
  - intros a tr1 b tr2 -> Hlater.
    destruct (collect_loop_inv _ _ _ _ _ _ _ _ Hlater) as (batches & _ & ->).
    destruct (collect_loop_extends later a tr1) as [more Hmore].
    rewrite Hlater in Hmore. simpl in Hmore. eauto.
Qed.

Lemma failed_offsets_parse : forall offsets,
  (forall h, In h offsets -> fetch_failed h = true) ->
  Forall2 (fun h rs => parsed_as (snapshot_of h) rs)
          offsets (map (fun _ => []) offsets).
Proof.
  induction offsets as [|h offsets IH]; intros Hall; simpl; constructor.
  - intros tr. rewrite (fetch_failed_snapshot network h); [reflexivity |].
    apply Hall. now left.
  - apply IH. intros k Hk. apply Hall. now right.
Qed.

(** A total outage is not an error.  When every fetch of the window fails,
    [collect_flight_history N] still requests every offset, prints a count
    of zero for each, and returns the empty sequence. *)
Theorem collect_flight_history_total_outage : forall N tr,
  (forall h, 0 <= h < N -> fetch_failed h = true) ->
  exists tr',
    collect_flight_history N tr = (Ok [], tr') /\
    gets tr' = gets tr ++ map BASE_URL_format (range N) /\
    infos tr' = infos tr ++ map (fun h => (h, 0%nat)) (range N).
Proof.
  intros N tr Hall.
  assert (Hbatches := failed_offsets_parse (range N)).
  destruct (collect_loop_returns _ _ _ _ _ (Hbatches
             (fun h Hin => Hall h (proj1 (range_In N h) Hin))) [] tr)
    as (tr' & Hrun & Hgets & Hinfos).
  exists tr'. unfold collect_flight_history.
  assert (Hempty : forall l : list Z,
            List.concat (map (fun _ => @nil flight_record) l) = [])
    by (induction l; simpl; auto).
  assert (Hzero : forall l : list Z,
            combine l (map (@List.length _)
                         (map (fun _ => @nil flight_record) l)) =
            map (fun h => (h, 0%nat)) l)
    by (induction l as [|x l IHl]; simpl; [| rewrite IHl]; auto).
  rewrite Hempty in Hrun. rewrite Hzero in Hinfos. auto.
Qed.

End MoreFacts.

(** ** The further properties in the small world *)

Lemma parse_snapshot_one_record_per_candidate_witness :
  parse_snapshot countries states (VDict mapping) [] =
    (Ok (List.concat mapping_batches), []) /\
  Forall2 extracted (candidates (VDict mapping)) (List.concat mapping_batches) /\
  List.length (List.concat mapping_batches) =
  List.length (candidates (VDict mapping)).
Proof.
  split; [reflexivity |].
  apply (parse_snapshot_one_record_per_candidate countries states
           (VDict mapping) [] (List.concat mapping_batches) []).
  reflexivity.
Defined.

Lemma parse_snapshot_raise_origin_witness :
  parse_snapshot countries states (VList [valid_flight; short_flight]) [] =
    (Raise IndexError, []) /\
  @nil event = [] /\
  exists before item after,
    candidates (VList [valid_flight; short_flight]) = before ++ item :: after /\
    parse_flight_record countries states item = Raise IndexError /\
    Forall (fun c => exists r, parse_flight_record countries states c = Ok (Some r))
           before.
Proof.
  split; [reflexivity |].
  apply (parse_snapshot_raise_origin countries states
           (VList [valid_flight; short_flight]) [] IndexError []).
  reflexivity.
Defined.

Lemma collect_flight_history_raise_origin_witness :
  collect_flight_history countries states late_network 3 [] =
    (Raise IndexError,
     snd (collect_flight_history countries states late_network 3 [])) /\
  exists h,
    0 <= h < 3 /\
    fst (parse_snapshot countries states (snapshot_of late_network h) []) =
      Raise IndexError /\
    (forall k, 0 <= k < h ->
       exists rs, parsed_as countries states (snapshot_of late_network k) rs) /\
    gets (snd (collect_flight_history countries states late_network 3 [])) =
      gets [] ++ map BASE_URL_format (range (h + 1)) /\
    List.length
      (infos (snd (collect_flight_history countries states late_network 3 []))) =
    (List.length (infos []) + Z.to_nat h)%nat.
Proof.
  split; [reflexivity |].
  apply (collect_flight_history_raise_origin countries states late_network
           3 [] IndexError
           (snd (collect_flight_history countries states late_network 3 []))).
  reflexivity.
Defined.

Lemma collect_flight_history_counts_add_up_witness :
  collect_flight_history countries states network 3 [] =
    (Ok (List.concat first_batches),
     snd (collect_flight_history countries states network 3 [])) /\
  map fst (infos (snd (collect_flight_history countries states network 3 []))) =
    map fst (infos []) ++ range 3 /\
  printed_total (snd (collect_flight_history countries states network 3 [])) =
    (printed_total [] + List.length (List.concat first_batches))%nat.
Proof.
  split; [reflexivity |].
  apply (collect_flight_history_counts_add_up countries states network
           3 [] (List.concat first_batches)
           (snd (collect_flight_history countries states network 3 []))).
  reflexivity.
Defined.

Lemma collect_flight_history_window_prefix_witness :
  2 <= 3 /\
  (forall e tr1,
     collect_flight_history countries states network 2 [] = (Raise e, tr1) ->
     collect_flight_history countries states network 3 [] = (Raise e, tr1)) /\
  (forall a tr1 b tr2,
     collect_flight_history countries states network 2 [] = (Ok a, tr1) ->
     collect_flight_history countries states network 3 [] = (Ok b, tr2) ->
     exists rest more, b = a ++ rest /\ tr2 = tr1 ++ more).
Proof.
  split; [lia |].
  apply (collect_flight_history_window_prefix countries states network 2 3 []).
  lia.
Defined.

Lemma dead_network_fails :
  forall h, 0 <= h < 3 -> fetch_failed dead_network h = true.
Proof. intros h _. reflexivity. Qed.

Lemma collect_flight_history_total_outage_witness :
  (forall h, 0 <= h < 3 -> fetch_failed dead_network h = true) /\
  exists tr',
    collect_flight_history countries states dead_network 3 [] = (Ok [], tr') /\
    gets tr' = gets [] ++ map BASE_URL_format (range 3) /\
    infos tr' = infos [] ++ map (fun h => (h, 0%nat)) (range 3).
Proof.
  split; [exact dead_network_fails |].
  apply (collect_flight_history_total_outage countries states dead_network
           3 [] dead_network_fails).
Defined.

(** A malformed candidate at offset 1: the first batch is counted, the
    second request is made, and nothing is returned. *)
Example collect_flight_history_late_failure :
  collect_flight_history countries states late_network 3 [] =
  (Raise IndexError,
   [Get (BASE_URL_format 0); Print (MsgInfo 0 2); Get (BASE_URL_format 1)]).
Proof. reflexivity. Qed.

(** ** Invalid elements and oversized integers *)

Lemma parse_snapshot_invalid_element_raises_witness :
  forallb valid_candidate [VList [VFloat 10.0; VFloat 20.0; VInt 1500]] = true /\
  lacks_slots (VList [VNone; VFloat 5.0; VInt 300])
    || null_position (VList [VNone; VFloat 5.0; VInt 300]) = true /\
  exists e,
    parse_snapshot countries states
      (VList ([VList [VFloat 10.0; VFloat 20.0; VInt 1500]]
              ++ VList [VNone; VFloat 5.0; VInt 300] :: [])) [] =
    (Raise e, []).
Proof.
  split; [reflexivity | split; [reflexivity |]].
  apply (parse_snapshot_invalid_element_raises countries states
           [VList [VFloat 10.0; VFloat 20.0; VInt 1500]]
           (VList [VNone; VFloat 5.0; VInt 300]) [] []); reflexivity.
Defined.

Lemma collect_flight_history_malformed_stops_fetching_witness :
  lacks_slots short_flight = true /\
  short_network (BASE_URL_format 0) =
    Response true (Some (VList (short_flight :: []))) /\
  1 < 2 /\
  (exists e,
     fst (collect_flight_history countries states short_network 2 []) = Raise e) /\
  gets (snd (collect_flight_history countries states short_network 2 [])) =
    gets [] ++ [BASE_URL_format 0] /\
  Z.of_nat (List.length [BASE_URL_format 0]) < 2.
Proof.
  split; [reflexivity | split; [reflexivity | split; [lia |]]].
  apply (collect_flight_history_malformed_stops_fetching countries states
           short_network short_flight [] 2 []);
    [reflexivity | reflexivity | lia].
Defined.

Section Oversized.

Context `{GeoEngine}.
Variable countries : list feature.
Variable states : list feature.

(** A candidate whose latitude or longitude is an integer beyond the range
    of floats raises when its point is built, like [[10**400, 0, 0]]. *)
Lemma parse_flight_record_overflow : forall la lo al more,
  overflows la = true \/ overflows lo = true ->
  exists e,
    parse_flight_record countries states (VList (la :: lo :: al :: more)) =
    Raise e.
Proof.
  intros la lo al more Hover.
  destruct (Point_overflow lo la) as [e He]; [tauto |].
  exists e. unfold parse_flight_record. cbn [getitem nth_error rbind].
  now rewrite He.
Qed.

(** Such a candidate is not a valid one. *)
Lemma valid_candidate_no_overflow : forall la lo al more,
  valid_candidate (VList (la :: lo :: al :: more)) = true ->
  overflows la = false /\ overflows lo = false.
Proof.
  assert (Hexact : forall v x, as_number v = Some x -> overflows v = false).
  { intros [| | z | | | |] x Hx; try reflexivity.
    unfold as_number in Hx. cbn [overflows].
    destruct (Z.leb_spec (Z.abs z) (2 ^ 53)) as [Hz | Hz]; [| discriminate Hx].
    apply Z.leb_gt.
    assert (Hlt : 2 ^ 53 < 2 ^ 1024) by (apply Z.pow_lt_mono_r; lia). lia. }
  intros la lo al more Hv. cbn [valid_candidate] in Hv.
  destruct (as_number la) as [y|] eqn:Hla; [| discriminate Hv].
  destruct (as_number lo) as [x|] eqn:Hlo; [| discriminate Hv].
  split; eapply Hexact; eassumption.
Qed.

End Oversized.

(** In the small world [[10**400, 0, 0]] raises. *)
Example parse_flight_record_googol :
  exists e,
    parse_flight_record countries states
      (VList [VInt (10 ^ 400); VInt 0; VInt 0]) = Raise e.
Proof.
  apply parse_flight_record_overflow. left. vm_compute. reflexivity.
Qed.
